(** * JobDump / jobStatusByWorkflowAndSite: the map function

    A shallow embedding of
    [src/couchapps/JobDump/views/jobStatusByWorkflowAndSite/map.js]
    and the properties of its status classification, its site scan and
    its single [emit].

    Conventions of the embedding.

    - A JavaScript value that is either [null] or a string is an
      [option string] ([None] is [null]).
    - [doc['states']] is an object (an array is one too): its own
      enumerable properties, listed in the order in which the engine's
      [for ... in] enumerates them.  Every key is the decimal string of
      an integer and is represented by that integer, so that
      [lastStateIndex - 1] is subtraction on [Z] and the initial number
      [0] and the key ["0"] name the same property.
    - The fields [oldstate], [newstate] and [location] of a transition,
      and [type] and [workflow] of a document, are strings.
    - A thrown value is an [exn]: the string thrown by [throw], or the
      engine's [TypeError] raised when a property of [undefined] is read.
    - [emit] appends to the output of the view; the output is threaded
      through the function next to the possible exception. *)

From Stdlib Require Import ZArith List String Ascii Bool Lia DecimalString.
From Stdlib Require Import Sorted.
Import ListNotations.

Local Open Scope string_scope.
Local Open Scope Z_scope.
Local Open Scope list_scope.

(** ** Exceptions *)

Inductive exn : Type :=
| Throw (msg : string)
| TypeError.

Inductive result (A : Type) : Type :=
| Ok (a : A)
| Raise (e : exn).

Arguments Ok {A} a.
Arguments Raise {A} e.

Definition rbind {A B : Type} (r : result A) (k : A -> result B) : result B :=
  match r with
  | Ok a => k a
  | Raise e => Raise e
  end.

Declare Scope result_scope.
Delimit Scope result_scope with res.
Notation "x <- c ;; k" := (rbind c (fun x => k))
  (at level 61, c at next level, right associativity) : result_scope.

(** ** Documents *)

Record Transition : Type := mkTransition
  { oldstate : string;
    newstate : string;
    location : string }.

(** The own properties of [doc['states']], in enumeration order. *)
Definition States : Type := list (Z * Transition).

Record Doc : Type := mkDoc
  { type : string;
    workflow : string;
    states : States }.

Definition keys (s : States) : list Z := map fst s.

(** [s[k]]: the property named [k], [undefined] ([None]) when absent. *)
Fixpoint member (s : States) (k : Z) : option Transition :=
  match s with
  | [] => None
  | (k', t) :: s' => if k =? k' then Some t else member s' k
  end.

(** [o.f] for [o] read from [doc['states']]: a [TypeError] on [undefined]. *)
Definition field {A : Type} (o : option Transition) (f : Transition -> A)
  : result A :=
  match o with
  | Some t => Ok (f t)
  | None => Raise TypeError
  end.

Definition newstate_at (doc : Doc) (i : Z) : result string :=
  field (member (states doc) i) newstate.

Definition oldstate_at (doc : Doc) (i : Z) : result string :=
  field (member (states doc) i) oldstate.

Definition location_at (doc : Doc) (i : Z) : result string :=
  field (member (states doc) i) location.

(** ** statusMap *)

Definition not_valid_transition : exn := Throw "not valid transition".

Definition statusMap (doc : Doc) (lastStateIndex : Z) : result string :=
  (ns <- newstate_at doc lastStateIndex ;;
   if (ns =? "created")%string then
     o <- oldstate_at doc lastStateIndex ;;
     if (o =? "new")%string then Ok "queued_first"
     else
       o <- oldstate_at doc lastStateIndex ;;
       if (o =? "jobcooloff")%string then Ok "queued_retry"
       else Raise not_valid_transition
   else if (ns =? "jobcooloff")%string then Ok "cooloff"
   else if (ns =? "executing")%string then
     o <- oldstate_at doc (lastStateIndex - 1) ;;
     if (o =? "new")%string then Ok "submitted_first"
     else
       o <- oldstate_at doc (lastStateIndex - 1) ;;
       if (o =? "jobcooloff")%string then Ok "submitted_retry"
       else Raise not_valid_transition
   else if (ns =? "success")%string then Ok "success"
   else if (ns =? "exhausted")%string then
     o <- oldstate_at doc lastStateIndex ;;
     if (o =? "jobfailed")%string then Ok "failure_exception"
     else
       o <- oldstate_at doc lastStateIndex ;;
       if (o =? "submitfailed")%string then Ok "failure_submit"
       else
         o <- oldstate_at doc lastStateIndex ;;
         if (o =? "createfailed")%string then Ok "failure_create"
         else Raise not_valid_transition
   else if (ns =? "killed")%string then Ok "canceled"
   else if (ns =? "cleanout")%string then
     o <- oldstate_at doc lastStateIndex ;;
     if (o =? "success")%string then Ok "success"
     else
       o <- oldstate_at doc lastStateIndex ;;
       if (o =? "exhausted")%string then
         p <- oldstate_at doc (lastStateIndex - 1) ;;
         if (p =? "jobfailed")%string then Ok "failure_exception"
         else
           p <- oldstate_at doc (lastStateIndex - 1) ;;
           if (p =? "submitfailed")%string then Ok "failure_submit"
           else
             p <- oldstate_at doc (lastStateIndex - 1) ;;
             if (p =? "createfailed")%string then Ok "failure_create"
             else Raise not_valid_transition
       else Raise not_valid_transition
   else Ok "transition")%res.

(** ** The scan over [doc['states']] *)

(** The three [var]s of the [if (doc['type'] == 'job')] block. *)
Record Vars : Type := mkVars
  { tmpSite : option string;
    siteLocation : option string;
    lastStateIndex : Z }.

Definition init_vars : Vars :=
  {| tmpSite := None; siteLocation := None; lastStateIndex := 0 |}.

(** What one iteration assigns, once [doc['states'][k].location] has
    been read into [tmpSite]. *)
Definition assign (v : Vars) (k : Z) (l : string) : Vars :=
  {| tmpSite := Some l;
     siteLocation := if (l =? "Agent")%string then siteLocation v else Some l;
     lastStateIndex := k |}.

Definition loop_body (doc : Doc) (v : Vars) (k : Z) : result Vars :=
  (l <- location_at doc k ;; Ok (assign v k l))%res.

(** [for (var lastStateIndex in doc['states']) { ... }] over the keys
    still to be enumerated. *)
Fixpoint for_in (doc : Doc) (ks : list Z) (v : Vars) : result Vars :=
  match ks with
  | [] => Ok v
  | k :: ks' => (v' <- loop_body doc v k ;; for_in doc ks' v')%res
  end.

(** [if (siteLocation == null) { siteLocation = tmpSite; }] *)
Definition default_site (v : Vars) : Vars :=
  match siteLocation v with
  | None =>
      {| tmpSite := tmpSite v;
         siteLocation := tmpSite v;
         lastStateIndex := lastStateIndex v |}
  | Some _ => v
  end.

(** Lines 68 to 87: the variables as they stand when [emit]'s argument
    is evaluated. *)
Definition resolve_site (doc : Doc) : result Vars :=
  (v <- for_in doc (keys (states doc)) init_vars ;; Ok (default_site v))%res.

(** ** The view function and its output *)

(** One emitted row: the key [[workflow, status, site]] and the value. *)
Definition Row : Type := (string * string * option string) * Z.

(** A computation that may append rows and may end in an exception. *)
Definition View (A : Type) : Type := list Row -> list Row * result A.

Definition vret {A : Type} (a : A) : View A := fun out => (out, Ok a).

Definition vbind {A B : Type} (c : View A) (k : A -> View B) : View B :=
  fun out =>
    match c out with
    | (out', Ok a) => k a out'
    | (out', Raise e) => (out', Raise e)
    end.

Definition lift {A : Type} (r : result A) : View A := fun out => (out, r).

Definition emit (key : string * string * option string) (value : Z)
  : View unit :=
  fun out => (out ++ [(key, value)], Ok tt).

Declare Scope view_scope.
Delimit Scope view_scope with view.
Notation "x <- c ;; k" := (vbind c (fun x => k))
  (at level 61, c at next level, right associativity) : view_scope.

(** The array literal of line 89 is evaluated left to right, so
    [statusMap()] runs, and may throw, before [emit] is called. *)
Definition map_fun (doc : Doc) : View unit :=
  if (type doc =? "job")%string then
    (v <- lift (resolve_site doc) ;;
     status <- lift (statusMap doc (lastStateIndex v)) ;;
     emit (workflow doc, status, siteLocation v) 1)%view
  else vret tt.

(** ** Arrays and job documents *)

(** An array, or a mapping keyed by the positions "0", "1", ... that the
    engine enumerates in numeric order: the keys are the positions, in
    increasing order. *)
Fixpoint index_from (i : Z) (ts : list Transition) : States :=
  match ts with
  | [] => []
  | t :: ts' => (i, t) :: index_from (i + 1) ts'
  end.

Definition of_array (ts : list Transition) : States := index_from 0 ts.

(** The job document of workflow [w] whose [states] is the array [ts]. *)
Definition job (w : string) (ts : list Transition) : Doc :=
  {| type := "job"; workflow := w; states := of_array ts |}.

(** ** The behaviour the specification describes *)

Definition not_agent (l : string) : bool := negb (l =? "Agent")%string.

(** The site resolver of the specification: the location of the last
    transition whose location is not ["Agent"], and ["Agent"] when there
    is none. *)
Definition resolved_site (ts : list Transition) : string :=
  last (filter not_agent (map location ts)) "Agent".

(** The failure table of the specification, on the disambiguating
    [oldstate]. *)
Definition failure_status (o : string) : result string :=
  if (o =? "jobfailed")%string then Ok "failure_exception"
  else if (o =? "submitfailed")%string then Ok "failure_submit"
  else if (o =? "createfailed")%string then Ok "failure_create"
  else Raise not_valid_transition.

(** The error kinds of the specification, and the kind a thrown value
    of the code stands for: the string of the [throw] statements is an
    [InvalidTransition]; an engine [TypeError] is none of the three. *)
Inductive ErrorKind : Type :=
| EmptyHistory
| InsufficientHistory
| InvalidTransition.

Definition kind_of (e : exn) : option ErrorKind :=
  match e with
  | Throw msg =>
      if (msg =? "not valid transition")%string then Some InvalidTransition
      else None
  | TypeError => None
  end.

(** The outcomes of the view function on the output [out]: one more row,
    or an exception that leaves the output as it was. *)
Definition emitted (out : list Row) (w status site : string)
  : list Row * result unit :=
  (out ++ [((w, status, Some site), 1)], Ok tt).

Definition aborted (out : list Row) (e : exn) : list Row * result unit :=
  (out, Raise e).

Definition outcome (out : list Row) (w site : string) (r : result string)
  : list Row * result unit :=
  match r with
  | Ok status => emitted out w status site
  | Raise e => aborted out e
  end.

(** ** Objects enumerated in the order of their key strings *)

(** The key as the engine holds it: the decimal string of the index. *)
Definition key_string (k : Z) : string :=
  NilZero.string_of_int (Z.to_int k).

Fixpoint insert_by_key (kt : Z * Transition) (s : States) : States :=
  match s with
  | [] => [kt]
  | kt' :: s' =>
      if String.leb (key_string (fst kt)) (key_string (fst kt'))
      then kt :: s
      else kt' :: insert_by_key kt s'
  end.

(** The same properties as the array [ts], held in a mapping that is
    enumerated in the lexicographic order of its key strings. *)
Definition lex_object (ts : list Transition) : States :=
  fold_right insert_by_key [] (of_array ts).

(** The greatest numeric index among the keys of [s] ([0] for no key,
    as [lastStateIndex] is initialised). *)
Definition greatest_key (s : States) : Z :=
  match keys s with
  | [] => 0
  | k :: ks => fold_left Z.max ks k
  end.

(** A job that failed on its fourth attempt to run and went back to
    cool off: eleven transitions, positions 0 to 10. *)
Definition cooling_history : list Transition :=
  [ mkTransition "none" "new" "Agent";
    mkTransition "new" "created" "Agent";
    mkTransition "created" "executing" "T2_CH_CERN";
    mkTransition "executing" "complete" "T2_CH_CERN";
    mkTransition "complete" "jobfailed" "T2_CH_CERN";
    mkTransition "jobfailed" "jobcooloff" "T2_CH_CERN";
    mkTransition "jobcooloff" "created" "Agent";
    mkTransition "created" "executing" "T1_US_FNAL";
    mkTransition "executing" "complete" "T1_US_FNAL";
    mkTransition "complete" "jobfailed" "T1_US_FNAL";
    mkTransition "jobfailed" "jobcooloff" "T1_US_FNAL" ].

Definition cooling_doc : Doc :=
  {| type := "job"; workflow := "wf"; states := lex_object cooling_history |}.

(** A run of the view function fails with the error kind [k] of the
    specification. *)
Definition fails_with (r : list Row * result unit) (k : ErrorKind) : Prop :=
  exists e, snd r = Raise e /\ kind_of e = Some k.

(** A job whose only transition, at position 0, enters [executing]. *)
Definition lone_executing_doc : Doc :=
  job "wf" [mkTransition "created" "executing" "T2_CH_CERN"].

(** A job document with no transition. *)
Definition empty_history_doc : Doc := job "wf" [].

(** The transition [t] with another [oldstate], or another [newstate]. *)
Definition set_oldstate (t : Transition) (o : string) : Transition :=
  {| oldstate := o; newstate := newstate t; location := location t |}.

Definition set_newstate (t : Transition) (n : string) : Transition :=
  {| oldstate := oldstate t; newstate := n; location := location t |}.

(** On the document [doc] the scan leaves [site] in [siteLocation], and
    that is the site of the row the view function emits when
    [statusMap] returns. *)
Definition resolves_to (doc : Doc) (out : list Row) (site : string) : Prop :=
  exists v,
    resolve_site doc = Ok v
    /\ siteLocation v = Some site
    /\ map_fun doc out
       = outcome out (workflow doc) site (statusMap doc (lastStateIndex v)).

Definition at_agent (t : Transition) : Prop := location t = "Agent".

(** ** The vocabulary of the classifier *)

(** The strings [statusMap] assigns to [status]. *)
Definition statuses : list string :=
  [ "queued_first"; "queued_retry"; "cooloff"; "submitted_first";
    "submitted_retry"; "success"; "failure_exception"; "failure_submit";
    "failure_create"; "canceled"; "transition" ].

(** The [case] labels of the [switch]. *)
Definition case_labels : list string :=
  [ "created"; "jobcooloff"; "executing"; "success"; "exhausted"; "killed";
    "cleanout" ].

(** The last transitions for which [statusMap] goes on to read
    [doc['states'][lastStateIndex - 1]]: the [executing] case, and the
    [cleanout] case once [oldstate] is found to be [exhausted]. *)
Definition looks_back (t : Transition) : bool :=
  (newstate t =? "executing")%string
  || ((newstate t =? "cleanout")%string && (oldstate t =? "exhausted")%string).


(** The value [o] of [tmpSite] or [siteLocation] is [null] or the
    [location] of a property of [doc['states']]. *)
Definition from_states (doc : Doc) (o : option string) : Prop :=
  forall l, o = Some l ->
            exists k t, member (states doc) k = Some t /\ location t = l.

(** ** The scan as a fold *)

(** The assignments of the loop over the entries [kts], without the
    reads. *)
Definition scan (kts : States) (v : Vars) : Vars :=
  fold_left (fun v kt => assign v (fst kt) (location (snd kt))) kts v.

(** * Properties *)

(** ** Reading an array *)

Lemma member_index_from_below (ts : list Transition) :
  forall i k, k < i -> member (index_from i ts) k = None.
Proof.
  induction ts as [|t ts IH]; intros i k Hk; simpl; [reflexivity|].
  destruct (Z.eqb_spec k i); [lia|].
  apply IH; lia.
Qed.

Lemma member_index_from_app (pre : list Transition) :
  forall i rest,
    member (index_from i (pre ++ rest)) (i + Z.of_nat (List.length pre))
    = member (index_from (i + Z.of_nat (List.length pre)) rest)
             (i + Z.of_nat (List.length pre)).
Proof.
  induction pre as [|p pre IH]; intros i rest.
  - simpl. now rewrite Z.add_0_r.
  - cbn [app index_from member List.length].
    destruct (Z.eqb_spec (i + Z.of_nat (S (List.length pre))) i); [lia|].
    replace (i + Z.of_nat (S (List.length pre)))
      with ((i + 1) + Z.of_nat (List.length pre)) by lia.
    apply IH.
Qed.

Lemma index_from_app (pre : list Transition) :
  forall i rest,
    index_from i (pre ++ rest)
    = index_from i pre ++ index_from (i + Z.of_nat (List.length pre)) rest.
Proof.
  induction pre as [|p pre IH]; intros i rest.
  - simpl. now rewrite Z.add_0_r.
  - cbn [app index_from List.length]. rewrite IH.
    replace (i + 1 + Z.of_nat (List.length pre))
      with (i + Z.of_nat (S (List.length pre))) by lia.
    reflexivity.
Qed.

(** The last element of an array is read at position [length - 1]. *)
Lemma member_last (pre : list Transition) (t : Transition) :
  member (of_array (pre ++ [t])) (Z.of_nat (List.length pre)) = Some t.
Proof.
  unfold of_array.
  pose proof (member_index_from_app pre 0 [t]) as H.
  rewrite !Z.add_0_l in H. rewrite H. simpl.
  now rewrite Z.eqb_refl.
Qed.

(** The element before the last is read at the last position minus one. *)
Lemma member_prev (pre : list Transition) (p t : Transition) :
  member (of_array (pre ++ [p; t])) (Z.of_nat (List.length (pre ++ [p])) - 1)
  = Some p.
Proof.
  unfold of_array.
  pose proof (member_index_from_app pre 0 [p; t]) as H.
  rewrite !Z.add_0_l in H.
  rewrite List.length_app. simpl List.length.
  replace (Z.of_nat (List.length pre + 1) - 1) with (Z.of_nat (List.length pre)) by lia.
  rewrite H. simpl. now rewrite Z.eqb_refl.
Qed.

(** Every entry of an array is found under its own key. *)
Lemma member_index_from_in (ts : list Transition) :
  forall i k t, In (k, t) (index_from i ts) ->
                member (index_from i ts) k = Some t.
Proof.
  induction ts as [|t0 ts IH]; intros i k t Hin; simpl in *; [easy|].
  destruct Hin as [Heq | Hin].
  - inversion Heq; subst. now rewrite Z.eqb_refl.
  - destruct (Z.eqb_spec k i) as [->|Hne].
    + apply IH in Hin.
      rewrite member_index_from_below in Hin by lia. discriminate.
    + now apply IH.
Qed.

(** ** The scan *)

(** Where every enumerated key is a property of the document, the loop
    raises nothing and is the fold of its assignments. *)
Lemma for_in_scan (doc : Doc) (kts : States) :
  forall v,
    (forall k t, In (k, t) kts -> member (states doc) k = Some t) ->
    for_in doc (keys kts) v = Ok (scan kts v).
Proof.
  induction kts as [|[k t] kts IH]; intros v Hmem; [reflexivity|].
  cbn [keys map fst for_in]. unfold loop_body, location_at.
  rewrite (Hmem k t (or_introl eq_refl)). cbn [field rbind].
  apply IH. intros k' t' Hin. apply Hmem. now right.
Qed.

Lemma scan_snoc (kts : States) (k : Z) (t : Transition) (v : Vars) :
  scan (kts ++ [(k, t)]) v = assign (scan kts v) k (location t).
Proof. unfold scan. now rewrite fold_left_app. Qed.

Lemma scan_array_snoc (i : Z) (pre : list Transition) (t : Transition)
      (v : Vars) :
  scan (index_from i (pre ++ [t])) v
  = assign (scan (index_from i pre) v) (i + Z.of_nat (List.length pre))
           (location t).
Proof. rewrite index_from_app. cbn [index_from]. apply scan_snoc. Qed.

(** The invariant of the loop on [siteLocation]. *)
Lemma siteLocation_scan (i : Z) (ts : list Transition) :
  siteLocation (scan (index_from i ts) init_vars)
  = match filter not_agent (map location ts) with
    | [] => None
    | l => Some (last l "Agent")
    end.
Proof.
  induction ts as [|t pre IH] using rev_ind; [reflexivity|].
  rewrite scan_array_snoc. cbn [assign siteLocation].
  rewrite map_app, filter_app. cbn [map filter].
  unfold not_agent at 2.
  destruct (location t =? "Agent")%string; cbn [negb].
  - now rewrite app_nil_r.
  - destruct (filter not_agent (map location pre) ++ [location t])
      as [|l ls] eqn:E; [now apply app_eq_nil in E|].
    now rewrite <- E, last_last.
Qed.

(** ** The view function on a job whose states are an array *)

Section JobArray.

Variable w : string.

(** After the scan of a non-empty array, [siteLocation] is the site the
    specification's resolver gives and [lastStateIndex] is the last
    position. *)
Lemma resolve_site_array (pre : list Transition) (t : Transition) :
  exists v,
    resolve_site (job w (pre ++ [t])) = Ok v
    /\ siteLocation v = Some (resolved_site (pre ++ [t]))
    /\ lastStateIndex v = Z.of_nat (List.length pre).
Proof.
  unfold resolve_site. cbn [job states].
  rewrite for_in_scan
    by (intros k t'; unfold of_array; apply member_index_from_in).
  cbn [rbind]. eexists. split; [reflexivity|].
  unfold default_site, of_array. rewrite siteLocation_scan.
  unfold resolved_site.
  destruct (filter not_agent (map location (pre ++ [t]))) as [|l ls] eqn:E.
  - rewrite scan_array_snoc. cbn [assign tmpSite siteLocation lastStateIndex last].
    split; [|lia].
    rewrite map_app, filter_app in E. apply app_eq_nil in E as [_ E].
    cbn [map filter] in E. unfold not_agent in E.
    destruct (String.eqb_spec (location t) "Agent") as [->|]; [reflexivity|].
    discriminate.
  - rewrite siteLocation_scan, E, scan_array_snoc.
    cbn [assign lastStateIndex]. split; [reflexivity|lia].
Qed.

Lemma map_fun_job (pre : list Transition) (t : Transition)
      (out : list Row) :
  map_fun (job w (pre ++ [t])) out
  = outcome out w (resolved_site (pre ++ [t]))
      (statusMap (job w (pre ++ [t])) (Z.of_nat (List.length pre))).
Proof.
  destruct (resolve_site_array pre t) as (v & Hv & Hsite & Hlast).
  unfold map_fun. cbn [job type String.eqb Ascii.eqb Bool.eqb].
  fold (job w (pre ++ [t])).
  unfold vbind at 1, lift at 1. rewrite Hv, Hlast.
  unfold vbind, lift, outcome.
  destruct (statusMap _ _); [|reflexivity].
  unfold emit, emitted. cbn [job workflow]. now rewrite Hsite.
Qed.

(** The reads of [statusMap] on such a job. *)
Lemma newstate_at_last (pre : list Transition) (t : Transition) :
  newstate_at (job w (pre ++ [t])) (Z.of_nat (List.length pre))
  = Ok (newstate t).
Proof. unfold newstate_at. cbn [job states]. now rewrite member_last. Qed.

Lemma oldstate_at_last (pre : list Transition) (t : Transition) :
  oldstate_at (job w (pre ++ [t])) (Z.of_nat (List.length pre))
  = Ok (oldstate t).
Proof. unfold oldstate_at. cbn [job states]. now rewrite member_last. Qed.

Lemma snoc2 (pre : list Transition) (p t : Transition) :
  pre ++ [p; t] = (pre ++ [p]) ++ [t].
Proof. now rewrite <- app_assoc. Qed.

Lemma oldstate_at_prev (pre : list Transition) (p t : Transition) :
  oldstate_at (job w ((pre ++ [p]) ++ [t]))
              (Z.of_nat (List.length (pre ++ [p])) - 1)
  = Ok (oldstate p).
Proof.
  unfold oldstate_at. cbn [job states].
  now rewrite <- snoc2, member_prev.
Qed.

End JobArray.

(** ** Totality of the scan *)

Lemma member_keys (s : States) (k : Z) :
  In k (keys s) -> exists t, member s k = Some t.
Proof.
  induction s as [|[k' t'] s IH]; cbn [keys map fst In member]; [easy|].
  intros [-> | Hin].
  - rewrite Z.eqb_refl. now exists t'.
  - destruct (k =? k'); [now exists t' | now apply IH].
Qed.

Lemma for_in_total (doc : Doc) (ks : list Z) :
  (forall k, In k ks -> exists t, member (states doc) k = Some t) ->
  forall v, exists v', for_in doc ks v = Ok v'.
Proof.
  induction ks as [|k ks IH]; intros Hks v; cbn [for_in].
  - now exists v.
  - destruct (Hks k (or_introl eq_refl)) as [t Ht].
    unfold loop_body, location_at. rewrite Ht. cbn [field rbind].
    apply IH. intros k' Hin. apply Hks. now right.
Qed.

(** On every document the scan ends without an exception. *)
Lemma resolve_site_total (doc : Doc) : exists v, resolve_site doc = Ok v.
Proof.
  unfold resolve_site.
  destruct (for_in_total doc (keys (states doc)) (member_keys (states doc))
                         init_vars) as [v Hv].
  rewrite Hv. cbn [rbind]. now eexists.
Qed.

(** ** The branches of the classifier *)

Ltac literal_eqb := cbn [String.eqb Ascii.eqb Bool.eqb].

(** Runs the view function on a job array up to the [switch]. *)
Ltac enter_switch H :=
  rewrite map_fun_job; unfold statusMap;
  rewrite newstate_at_last; cbn [rbind];
  rewrite H; literal_eqb.

Ltac by_oldstate o :=
  repeat (destruct (String.eqb o _); [reflexivity|]); try reflexivity.

(** C5. When the last transition enters [created], the status is
    [queued_first] if that transition leaves [new], [queued_retry] if it
    leaves [jobcooloff], and the string "not valid transition" is thrown
    for any other [oldstate].  In particular the one-transition history
    [new -> created] at location [L] emits [queued_first] with site [L]
    (which is "Agent" exactly when [L] is). *)
Theorem created_status (w : string) (out : list Row) :
  (forall pre t,
      newstate t = "created" ->
      map_fun (job w (pre ++ [t])) out
      = if (oldstate t =? "new")%string
        then emitted out w "queued_first" (resolved_site (pre ++ [t]))
        else if (oldstate t =? "jobcooloff")%string
        then emitted out w "queued_retry" (resolved_site (pre ++ [t]))
        else aborted out not_valid_transition)
  /\ (forall L,
         map_fun (job w [mkTransition "new" "created" L]) out
         = emitted out w "queued_first"
                   (if (L =? "Agent")%string then "Agent" else L)).
Proof.
  split.
  - intros pre t Hns. enter_switch Hns.
    rewrite !oldstate_at_last. cbn [rbind].
    by_oldstate (oldstate t).
  - intros L.
    change [mkTransition "new" "created" L]
      with ([] ++ [mkTransition "new" "created" L]).
    rewrite map_fun_job. unfold statusMap.
    rewrite newstate_at_last, !oldstate_at_last.
    cbn [rbind newstate oldstate]. literal_eqb.
    cbn [outcome]. f_equal.
    unfold resolved_site, not_agent. cbn [app map filter location].
    destruct (String.eqb_spec L "Agent") as [->|]; reflexivity.
Qed.

Lemma created_status_witness :
  map_fun (job "wf" ([mkTransition "none" "new" "Agent"]
                     ++ [mkTransition "jobcooloff" "created" "T1_US_FNAL"])) []
  = emitted [] "wf" "queued_retry" "T1_US_FNAL".
Proof.
  exact (proj1 (created_status "wf" [])
               [mkTransition "none" "new" "Agent"]
               (mkTransition "jobcooloff" "created" "T1_US_FNAL")
               eq_refl).
Defined.

(** The resolved site depends on the locations only. *)
Lemma resolved_site_locations (ts ts' : list Transition) :
  map location ts = map location ts' -> resolved_site ts = resolved_site ts'.
Proof. unfold resolved_site. now intros ->. Qed.

(** Runs the view function up to the [switch] when the array has an
    element before the last, and performs the reads of [oldstate]. *)
Ltac enter_switch2 H :=
  rewrite snoc2; enter_switch H;
  rewrite ?oldstate_at_last, ?oldstate_at_prev; cbn [rbind];
  rewrite <- ?snoc2.

(** C4. When the history has at least two transitions and the last one
    enters [executing], the status is decided by the [oldstate] of the
    transition before the last: [new] gives [submitted_first],
    [jobcooloff] gives [submitted_retry], anything else throws "not valid
    transition"; the [oldstate] of the last transition plays no part. *)
Theorem executing_status (w : string) (pre : list Transition)
        (p t : Transition) (out : list Row) :
  newstate t = "executing" ->
  map_fun (job w (pre ++ [p; t])) out
  = (if (oldstate p =? "new")%string
     then emitted out w "submitted_first" (resolved_site (pre ++ [p; t]))
     else if (oldstate p =? "jobcooloff")%string
     then emitted out w "submitted_retry" (resolved_site (pre ++ [p; t]))
     else aborted out not_valid_transition)
  /\ forall o',
      map_fun (job w (pre ++ [p; set_oldstate t o'])) out
      = map_fun (job w (pre ++ [p; t])) out.
Proof.
  intros Hns.
  assert (Hgen : forall t0, newstate t0 = "executing" ->
            map_fun (job w (pre ++ [p; t0])) out
            = if (oldstate p =? "new")%string
              then emitted out w "submitted_first"
                           (resolved_site (pre ++ [p; t0]))
              else if (oldstate p =? "jobcooloff")%string
              then emitted out w "submitted_retry"
                           (resolved_site (pre ++ [p; t0]))
              else aborted out not_valid_transition).
  { intros t0 H0. enter_switch2 H0. by_oldstate (oldstate p). }
  split; [now apply Hgen|].
  intros o'. rewrite (Hgen t Hns), (Hgen (set_oldstate t o') Hns).
  rewrite (resolved_site_locations (pre ++ [p; set_oldstate t o'])
                                   (pre ++ [p; t]));
    [reflexivity | now rewrite !map_app].
Qed.

Lemma executing_status_witness :
  map_fun (job "wf" ([] ++ [mkTransition "new" "created" "Agent";
                            mkTransition "created" "executing" "siteA"])) []
  = emitted [] "wf" "submitted_first" "siteA".
Proof.
  exact (proj1 (executing_status "wf" []
                  (mkTransition "new" "created" "Agent")
                  (mkTransition "created" "executing" "siteA") [] eq_refl)).
Defined.

(** The [cleanout] branch once the last transition is known to leave
    [exhausted]: the failure table on what the read of the [oldstate] at
    the position before the last gives. *)
Lemma cleanout_exhausted (w : string) (pre : list Transition)
      (t : Transition) (out : list Row) :
  newstate t = "cleanout" ->
  oldstate t = "exhausted" ->
  map_fun (job w (pre ++ [t])) out
  = outcome out w (resolved_site (pre ++ [t]))
      (o <- oldstate_at (job w (pre ++ [t])) (Z.of_nat (List.length pre) - 1) ;;
       failure_status o)%res.
Proof.
  intros Hns Hos. enter_switch Hns.
  rewrite !oldstate_at_last. cbn [rbind]. rewrite Hos. literal_eqb.
  f_equal. unfold failure_status.
  destruct (oldstate_at _ _) as [o|e]; [|reflexivity]. cbn [rbind].
  by_oldstate o.
Qed.

Lemma cleanout_exhausted_prev (w : string) (pre : list Transition)
      (p t : Transition) (out : list Row) :
  newstate t = "cleanout" ->
  oldstate t = "exhausted" ->
  map_fun (job w (pre ++ [p; t])) out
  = outcome out w (resolved_site (pre ++ [p; t]))
            (failure_status (oldstate p)).
Proof.
  intros Hns Hos. rewrite snoc2, (cleanout_exhausted _ _ _ _ Hns Hos).
  now rewrite oldstate_at_prev.
Qed.

(** C3. When the last transition enters [exhausted], its own [oldstate]
    selects [failure_exception], [failure_submit] or [failure_create]
    ([jobfailed], [submitfailed], [createfailed]) and any other value
    throws "not valid transition".  When the last transition is
    [exhausted -> cleanout], the same table is applied to the [oldstate]
    read at the position before the last, which is that of the
    second-to-last transition; [success -> cleanout] gives [success], and
    any other [cleanout] throws "not valid transition". *)
Theorem failure_lookback (w : string) (out : list Row) :
  (forall pre t,
      newstate t = "exhausted" ->
      map_fun (job w (pre ++ [t])) out
      = outcome out w (resolved_site (pre ++ [t]))
                (failure_status (oldstate t)))
  /\ (forall pre p t,
         newstate t = "cleanout" ->
         oldstate t = "exhausted" ->
         map_fun (job w (pre ++ [p; t])) out
         = outcome out w (resolved_site (pre ++ [p; t]))
                   (failure_status (oldstate p)))
  /\ (forall pre t,
         newstate t = "cleanout" ->
         oldstate t = "exhausted" ->
         map_fun (job w (pre ++ [t])) out
         = outcome out w (resolved_site (pre ++ [t]))
             (o <- oldstate_at (job w (pre ++ [t]))
                               (Z.of_nat (List.length pre) - 1) ;;
              failure_status o)%res)
  /\ (forall pre t,
         newstate t = "cleanout" ->
         oldstate t = "success" ->
         map_fun (job w (pre ++ [t])) out
         = emitted out w "success" (resolved_site (pre ++ [t])))
  /\ (forall pre t,
         newstate t = "cleanout" ->
         oldstate t <> "success" ->
         oldstate t <> "exhausted" ->
         map_fun (job w (pre ++ [t])) out
         = aborted out not_valid_transition).
Proof.
  repeat split.
  - intros pre t Hns. enter_switch Hns.
    rewrite !oldstate_at_last. cbn [rbind]. unfold failure_status.
    by_oldstate (oldstate t).
  - intros pre p t. apply cleanout_exhausted_prev.
  - intros pre t. apply cleanout_exhausted.
  - intros pre t Hns Hos. enter_switch Hns.
    rewrite !oldstate_at_last. cbn [rbind]. now rewrite Hos.
  - intros pre t Hns Hs He. enter_switch Hns.
    rewrite !oldstate_at_last. cbn [rbind].
    apply String.eqb_neq in Hs, He. now rewrite Hs, He.
Qed.

Lemma failure_lookback_witness :
  map_fun (job "wf" ([mkTransition "none" "new" "Agent"]
                     ++ [mkTransition "submitfailed" "exhausted" "X";
                         mkTransition "exhausted" "cleanout" "Y"])) []
  = emitted [] "wf" "failure_submit" "Y".
Proof.
  exact (proj1 (proj2 (failure_lookback "wf" []))
               [mkTransition "none" "new" "Agent"]
               (mkTransition "submitfailed" "exhausted" "X")
               (mkTransition "exhausted" "cleanout" "Y")
               eq_refl eq_refl).
Defined.

(** C10. When the history has at least two transitions and the last one
    is [exhausted -> cleanout], the status is a function of the
    [oldstate] of the second-to-last transition alone: [jobfailed] gives
    [failure_exception], [submitfailed] gives [failure_submit],
    [createfailed] gives [failure_create], anything else throws "not
    valid transition".  The [newstate] of that transition is not read:
    replacing it by any [n'], [exhausted] or not, changes nothing. *)
Theorem cleanout_lookback_ignores_newstate
        (w : string) (pre : list Transition) (p t : Transition)
        (n' : string) (out : list Row) :
  newstate t = "cleanout" ->
  oldstate t = "exhausted" ->
  map_fun (job w (pre ++ [set_newstate p n'; t])) out
  = if (oldstate p =? "jobfailed")%string
    then emitted out w "failure_exception" (resolved_site (pre ++ [p; t]))
    else if (oldstate p =? "submitfailed")%string
    then emitted out w "failure_submit" (resolved_site (pre ++ [p; t]))
    else if (oldstate p =? "createfailed")%string
    then emitted out w "failure_create" (resolved_site (pre ++ [p; t]))
    else aborted out not_valid_transition.
Proof.
  intros Hns Hos. rewrite (cleanout_exhausted_prev _ _ _ _ _ Hns Hos).
  rewrite (resolved_site_locations (pre ++ [set_newstate p n'; t])
                                   (pre ++ [p; t]))
    by now rewrite !map_app.
  cbn [set_newstate oldstate]. unfold failure_status.
  by_oldstate (oldstate p).
Qed.

Lemma cleanout_lookback_ignores_newstate_witness :
  map_fun (job "wf" ([mkTransition "new" "created" "Agent"]
                     ++ [set_newstate
                           (mkTransition "jobfailed" "exhausted" "T1_US_FNAL")
                           "jobcooloff";
                         mkTransition "exhausted" "cleanout" "Agent"])) []
  = emitted [] "wf" "failure_exception" "T1_US_FNAL".
Proof.
  exact (cleanout_lookback_ignores_newstate "wf"
           [mkTransition "new" "created" "Agent"]
           (mkTransition "jobfailed" "exhausted" "T1_US_FNAL")
           (mkTransition "exhausted" "cleanout" "Agent")
           "jobcooloff" [] eq_refl eq_refl).
Defined.

(** ** The resolved site *)

Lemma resolves_to_resolved_site (w : string) (ts : list Transition)
      (out : list Row) :
  ts <> [] -> resolves_to (job w ts) out (resolved_site ts).
Proof.
  intros Hne. destruct (exists_last Hne) as (pre & t & ->).
  destruct (resolve_site_array w pre t) as (v & Hv & Hsite & Hlast).
  exists v. repeat split; [assumption..|].
  rewrite Hlast. apply map_fun_job.
Qed.

Lemma filter_not_agent_all (ts : list Transition) :
  Forall at_agent ts -> filter not_agent (map location ts) = [].
Proof.
  induction 1 as [|t ts Ht _ IH]; [reflexivity|].
  cbn [map filter]. unfold not_agent at 1. red in Ht. rewrite Ht.
  exact IH.
Qed.

Lemma resolved_site_all_agent (ts : list Transition) :
  Forall at_agent ts -> resolved_site ts = "Agent".
Proof.
  intros H. unfold resolved_site. now rewrite filter_not_agent_all.
Qed.

Lemma resolved_site_last_site (a b : list Transition) (t : Transition) :
  location t <> "Agent" -> Forall at_agent b ->
  resolved_site (a ++ t :: b) = location t.
Proof.
  intros Ht Hb. unfold resolved_site.
  rewrite map_app, filter_app. cbn [map filter].
  rewrite (filter_not_agent_all b Hb). unfold not_agent at 2.
  apply String.eqb_neq in Ht. rewrite Ht. cbn [negb].
  apply last_last.
Qed.

(** C2. On a job with a non-empty states array, the site left by the
    scan, and carried by the emitted row, is the location of the last
    transition that is not at "Agent" (every later one being at "Agent"),
    and it is "Agent" when every transition is at "Agent".  For the
    locations [Agent, siteA, Agent, siteB, Agent] it is [siteB]; for
    [Agent, Agent] it is "Agent". *)
Theorem site_resolution (w : string) (out : list Row) :
  (forall a t b,
      location t <> "Agent" -> Forall at_agent b ->
      resolves_to (job w (a ++ t :: b)) out (location t))
  /\ (forall ts,
         ts <> [] -> Forall at_agent ts ->
         resolves_to (job w ts) out "Agent")
  /\ (forall ts siteA siteB,
         map location ts = ["Agent"; siteA; "Agent"; siteB; "Agent"] ->
         siteB <> "Agent" ->
         resolves_to (job w ts) out siteB)
  /\ (forall ts,
         map location ts = ["Agent"; "Agent"] ->
         resolves_to (job w ts) out "Agent").
Proof.
  repeat split.
  - intros a t b Ht Hb.
    rewrite <- (resolved_site_last_site a b t Ht Hb).
    apply resolves_to_resolved_site. now destruct a.
  - intros ts Hne Hall.
    rewrite <- (resolved_site_all_agent ts Hall).
    now apply resolves_to_resolved_site.
  - intros ts siteA siteB Hloc HB.
    assert (Hsite : resolved_site ts = siteB).
    { unfold resolved_site. rewrite Hloc. cbn [filter].
      unfold not_agent. literal_eqb. cbn [negb].
      apply String.eqb_neq in HB. rewrite HB. cbn [negb].
      destruct (siteA =? "Agent")%string; reflexivity. }
    rewrite <- Hsite. apply resolves_to_resolved_site.
    intros ->. discriminate.
  - intros ts Hloc.
    assert (Hsite : resolved_site ts = "Agent").
    { unfold resolved_site. now rewrite Hloc. }
    rewrite <- Hsite. apply resolves_to_resolved_site.
    intros ->. discriminate.
Qed.

Lemma site_resolution_witness :
  resolves_to
    (job "wf" [mkTransition "none" "new" "Agent";
               mkTransition "new" "created" "siteA";
               mkTransition "created" "executing" "Agent";
               mkTransition "executing" "complete" "siteB";
               mkTransition "complete" "success" "Agent"]) [] "siteB".
Proof.
  apply (proj1 (proj2 (proj2 (site_resolution "wf" []))) _ "siteA" "siteB").
  - reflexivity.
  - apply String.eqb_neq. reflexivity.
Defined.

(** ** The single [emit] *)

(** C6. A document whose [type] is "job" and on which [statusMap]
    returns a status adds exactly one row to the output, with key
    [[workflow, status, siteLocation]] and value 1; a document of any
    other type adds nothing and raises nothing. *)
Theorem one_row_per_job (doc : Doc) (out : list Row) :
  (type doc = "job" ->
   exists v,
     resolve_site doc = Ok v
     /\ forall status,
         statusMap doc (lastStateIndex v) = Ok status ->
         map_fun doc out
         = (out ++ [((workflow doc, status, siteLocation v), 1)], Ok tt))
  /\ (type doc <> "job" -> map_fun doc out = (out, Ok tt)).
Proof.
  unfold map_fun. split.
  - intros Hty. destruct (resolve_site_total doc) as [v Hv].
    exists v. split; [assumption|]. intros status Hst.
    apply String.eqb_eq in Hty. rewrite Hty.
    unfold vbind, lift, emit. now rewrite Hv, Hst.
  - intros Hty. apply String.eqb_neq in Hty. now rewrite Hty.
Qed.

Lemma one_row_per_job_witness :
  map_fun (job "wf" [mkTransition "new" "created" "Agent"]) []
  = ([(("wf", "queued_first", Some "Agent"), 1)], Ok tt)
  /\ map_fun {| type := "workflow"; workflow := "wf"; states := [] |} []
     = ([], Ok tt).
Proof.
  split.
  - destruct (proj1 (one_row_per_job
                       (job "wf" [mkTransition "new" "created" "Agent"]) [])
                    eq_refl) as (v & Hv & Hrow).
    vm_compute in Hv. injection Hv as <-.
    exact (Hrow "queued_first" eq_refl).
  - apply (proj2 (one_row_per_job
                    {| type := "workflow"; workflow := "wf"; states := [] |}
                    [])).
    apply String.eqb_neq. reflexivity.
Defined.

(** C9. On a job document on which [statusMap] throws "not valid
    transition", the view function ends with that exception and the
    output is what it was: nothing has been emitted.  A last transition
    [bogus -> created] is such a case. *)
Theorem invalid_transition_emits_nothing (out : list Row) :
  (forall doc v,
      type doc = "job" ->
      resolve_site doc = Ok v ->
      statusMap doc (lastStateIndex v) = Raise not_valid_transition ->
      map_fun doc out = (out, Raise not_valid_transition))
  /\ (forall w pre t,
         newstate t = "created" ->
         oldstate t = "bogus" ->
         map_fun (job w (pre ++ [t])) out = (out, Raise not_valid_transition)).
Proof.
  split.
  - intros doc v Hty Hv Hst. unfold map_fun.
    apply String.eqb_eq in Hty. rewrite Hty.
    unfold vbind, lift. now rewrite Hv, Hst.
  - intros w pre t Hns Hos. enter_switch Hns.
    rewrite !oldstate_at_last. cbn [rbind]. now rewrite Hos.
Qed.

Lemma invalid_transition_emits_nothing_witness :
  map_fun (job "wf" ([] ++ [mkTransition "bogus" "created" "T2_CH_CERN"])) []
  = ([], Raise not_valid_transition).
Proof.
  exact (proj2 (invalid_transition_emits_nothing [])
               "wf" [] (mkTransition "bogus" "created" "T2_CH_CERN")
               eq_refl eq_refl).
Defined.

(** ** Histories too short for the lookback *)

(** C7, as the code has it.  On a job whose single transition enters
    [executing], [statusMap] reads the entry at position -1, which is
    [undefined], and reading its [oldstate] raises the engine's
    [TypeError]; the view function ends with that exception and emits
    nothing. *)
Theorem lone_executing_type_error (w : string) (t : Transition)
        (out : list Row) :
  newstate t = "executing" ->
  oldstate_at (job w [t]) (0 - 1) = Raise TypeError
  /\ map_fun (job w [t]) out = (out, Raise TypeError).
Proof.
  intros Hns. split; [reflexivity|].
  change [t] with ([] ++ [t]). enter_switch Hns. reflexivity.
Qed.

Lemma lone_executing_type_error_witness :
  oldstate_at lone_executing_doc (0 - 1) = Raise TypeError
  /\ map_fun lone_executing_doc [] = ([], Raise TypeError).
Proof.
  exact (lone_executing_type_error
           "wf" (mkTransition "created" "executing" "T2_CH_CERN") [] eq_refl).
Defined.

(** C7 as stated fails: the exception on a lone [executing] transition
    is neither an [InvalidTransition] nor an [InsufficientHistory]. *)
Lemma lone_executing_not_typed :
  ~ (fails_with (map_fun lone_executing_doc []) InvalidTransition
     \/ fails_with (map_fun lone_executing_doc []) InsufficientHistory).
Proof.
  intros [(e & He & Hk) | (e & He & Hk)];
    vm_compute in He; injection He as <-; discriminate.
Qed.

(** C8, as the code has it.  On a job document whose [states] has no
    entry, [lastStateIndex] is still 0, [doc['states'][0]] is
    [undefined], and reading its [newstate] raises the engine's
    [TypeError]; nothing is emitted. *)
Theorem empty_history_type_error (doc : Doc) (out : list Row) :
  type doc = "job" ->
  states doc = [] ->
  map_fun doc out = (out, Raise TypeError).
Proof.
  intros Hty Hst. unfold map_fun.
  apply String.eqb_eq in Hty. rewrite Hty.
  unfold vbind, lift, resolve_site, statusMap, newstate_at.
  now rewrite Hst.
Qed.

Lemma empty_history_type_error_witness :
  map_fun empty_history_doc [] = ([], Raise TypeError).
Proof.
  exact (empty_history_type_error empty_history_doc [] eq_refl eq_refl).
Defined.

(** C8 as stated fails: the exception on an empty history is not an
    [EmptyHistory]. *)
Lemma empty_history_not_typed :
  ~ fails_with (map_fun empty_history_doc []) EmptyHistory.
Proof.
  intros (e & He & Hk).
  vm_compute in He. injection He as <-. discriminate.
Qed.

(** ** Which transition is the last *)

Lemma lastStateIndex_default_site (v : Vars) :
  lastStateIndex (default_site v) = lastStateIndex v.
Proof. unfold default_site. now destruct (siteLocation v). Qed.

Lemma last_cons_default (k : Z) (ks : list Z) (d d' : Z) :
  last (k :: ks) d = last (k :: ks) d'.
Proof.
  revert k. induction ks as [|k' ks IH]; intros k; [reflexivity|].
  change (last (k' :: ks) d = last (k' :: ks) d'). apply IH.
Qed.

Lemma for_in_lastStateIndex (doc : Doc) (ks : list Z) :
  forall v v',
    for_in doc ks v = Ok v' ->
    lastStateIndex v' = last ks (lastStateIndex v).
Proof.
  induction ks as [|k ks IH]; intros v v' H; cbn [for_in] in H.
  - now injection H as <-.
  - unfold loop_body in H.
    destruct (location_at doc k) as [l|e]; [|discriminate].
    cbn [rbind] in H. apply IH in H. rewrite H.
    cbn [assign lastStateIndex]. destruct ks as [|k' ks]; [reflexivity|].
    change (last (k' :: ks) k = last (k' :: ks) (lastStateIndex v)).
    apply last_cons_default.
Qed.

(** Whatever the object, the index handed to [statusMap] is the key the
    engine enumerated last. *)
Lemma resolve_site_lastStateIndex (doc : Doc) (v : Vars) :
  resolve_site doc = Ok v -> lastStateIndex v = last (keys (states doc)) 0.
Proof.
  unfold resolve_site. intros H.
  destruct (for_in doc (keys (states doc)) init_vars) as [v0|e] eqn:E;
    [|discriminate].
  cbn [rbind] in H. injection H as <-.
  rewrite lastStateIndex_default_site.
  now apply for_in_lastStateIndex in E.
Qed.

Lemma fold_max_index_from (ts : list Transition) :
  forall j,
    fold_left Z.max (keys (index_from j ts)) (j - 1)
    = j - 1 + Z.of_nat (List.length ts).
Proof.
  induction ts as [|t ts IH]; intros j.
  - cbn. lia.
  - cbn [index_from keys map fst fold_left List.length].
    replace (Z.max (j - 1) j) with (j + 1 - 1) by lia.
    fold (keys (index_from (j + 1) ts)). rewrite IH. lia.
Qed.

(** In an array the key enumerated last is the greatest index, so there
    the transition [statusMap] starts from is the one at the highest
    position. *)
Lemma array_last_is_greatest (pre : list Transition) (t : Transition) :
  greatest_key (of_array (pre ++ [t])) = Z.of_nat (List.length pre)
  /\ last (keys (of_array (pre ++ [t]))) 0 = Z.of_nat (List.length pre).
Proof.
  split.
  - unfold greatest_key, of_array.
    destruct (pre ++ [t]) as [|t0 ts] eqn:E; [now destruct pre|].
    cbn [index_from keys map fst]. fold (keys (index_from (0 + 1) ts)).
    change 0 with (0 + 1 - 1) at 2. rewrite fold_max_index_from.
    apply (f_equal (@List.length _)) in E.
    rewrite List.length_app in E. cbn [List.length] in E. lia.
  - unfold of_array, keys. rewrite index_from_app, map_app.
    cbn [index_from map fst]. now rewrite last_last.
Qed.

(** C1, on the code.  The eleven-transition history [cooling_history]
    held in a mapping that is enumerated by key string: the keys come in
    the order 0, 1, 10, 2, ..., 9; the greatest index is 10 and the
    transition there enters [jobcooloff]; the scan leaves
    [lastStateIndex] at 9, and the row emitted has status [transition],
    read from entry 9, where the same history as an array gives
    [cooloff]. *)
Theorem lexicographic_enumeration_misses_last :
  map key_string (keys (states cooling_doc))
  = ["0"; "1"; "10"; "2"; "3"; "4"; "5"; "6"; "7"; "8"; "9"]
  /\ greatest_key (states cooling_doc) = 10
  /\ newstate_at cooling_doc 10 = Ok "jobcooloff"
  /\ (exists v, resolve_site cooling_doc = Ok v /\ lastStateIndex v = 9)
  /\ newstate_at cooling_doc 9 = Ok "jobfailed"
  /\ map_fun cooling_doc [] = emitted [] "wf" "transition" "T1_US_FNAL"
  /\ map_fun (job "wf" cooling_history) []
     = emitted [] "wf" "cooloff" "T1_US_FNAL".
Proof.
  repeat split; try reflexivity.
  eexists. split; vm_compute; reflexivity.
Qed.

(** * Further properties of the view function *)

(** ** The branches that read nothing more *)

(** X1. When the last transition of a non-empty history enters
    [jobcooloff], [success] or [killed], the row emitted has status
    [cooloff], [success] or [canceled]: no [oldstate] is read and nothing
    is thrown, whatever the rest of the history. *)
Theorem unconditional_status (w : string) (pre : list Transition)
        (t : Transition) (out : list Row) :
  (newstate t = "jobcooloff" ->
   map_fun (job w (pre ++ [t])) out
   = emitted out w "cooloff" (resolved_site (pre ++ [t])))
  /\ (newstate t = "success" ->
      map_fun (job w (pre ++ [t])) out
      = emitted out w "success" (resolved_site (pre ++ [t])))
  /\ (newstate t = "killed" ->
      map_fun (job w (pre ++ [t])) out
      = emitted out w "canceled" (resolved_site (pre ++ [t]))).
Proof.
  repeat split; intros Hns; enter_switch Hns; reflexivity.
Qed.

Lemma unconditional_status_witness :
  map_fun (job "wf" ([mkTransition "created" "executing" "T2_CH_CERN"]
                     ++ [mkTransition "executing" "killed" "Agent"])) []
  = emitted [] "wf" "canceled" "T2_CH_CERN".
Proof.
  exact (proj2 (proj2 (unconditional_status
                         "wf" [mkTransition "created" "executing" "T2_CH_CERN"]
                         (mkTransition "executing" "killed" "Agent") []))
               eq_refl).
Defined.

Lemma not_in_cons (x y : string) (l : list string) :
  ~ In x (y :: l) -> (x =? y)%string = false /\ ~ In x l.
Proof.
  intros H. split.
  - apply String.eqb_neq. intros ->. apply H. now left.
  - intros Hin. apply H. now right.
Qed.

(** X2. When the [newstate] of the last transition is none of the seven
    [case] labels, the [default] branch is taken: the row emitted has
    status [transition] and nothing is thrown, whatever the [oldstate]s. *)
Theorem default_status (w : string) (pre : list Transition)
        (t : Transition) (out : list Row) :
  ~ In (newstate t) case_labels ->
  map_fun (job w (pre ++ [t])) out
  = emitted out w "transition" (resolved_site (pre ++ [t])).
Proof.
  intros H. unfold case_labels in H.
  repeat (apply not_in_cons in H as [? H]).
  rewrite map_fun_job. unfold statusMap.
  rewrite newstate_at_last. cbn [rbind].
  repeat match goal with
         | E : (newstate t =? _)%string = false |- _ => rewrite E; clear E
         end.
  reflexivity.
Qed.

Lemma default_status_witness :
  map_fun (job "wf" ([mkTransition "executing" "complete" "T2_CH_CERN"]
                     ++ [mkTransition "complete" "jobfailed" "T2_CH_CERN"])) []
  = emitted [] "wf" "transition" "T2_CH_CERN".
Proof.
  apply (default_status "wf" [mkTransition "executing" "complete" "T2_CH_CERN"]
                        (mkTransition "complete" "jobfailed" "T2_CH_CERN") []).
  cbn [newstate case_labels In]. intros H.
  repeat (destruct H as [H | H]; [discriminate H|]). exact H.
Defined.

(** ** What [statusMap] can return and throw *)

Ltac split_ifs H :=
  repeat match type of H with
         | context [if ?b then _ else _] => destruct b
         end.

Ltac open_statusMap H :=
  unfold statusMap, newstate_at, oldstate_at in H;
  match type of H with
  | context [member (states ?d) ?i] =>
      destruct (member (states d) i) as [?t|] eqn:?Hlast;
      [|cbn [field rbind] in H]
  end;
  [ match type of H with
    | context [member (states ?d) (?i - 1)] =>
        destruct (member (states d) (i - 1)) as [?p|] eqn:?Hprev
    end;
    cbn [field rbind] in H; split_ifs H
  | ].

Lemma statusMap_range (doc : Doc) (i : Z) (s : string) :
  statusMap doc i = Ok s -> In s statuses.
Proof.
  intros H. open_statusMap H; try discriminate H;
    injection H as <-; unfold statuses; cbn [In];
    repeat (first [left; reflexivity | right]).
Qed.

Lemma statusMap_exn (doc : Doc) (i : Z) (e : exn) :
  statusMap doc i = Raise e -> e = TypeError \/ e = not_valid_transition.
Proof.
  intros H. open_statusMap H; try discriminate H;
    injection H as <-; auto.
Qed.

Lemma statusMap_ok_member (doc : Doc) (i : Z) (s : string) :
  statusMap doc i = Ok s -> exists t, member (states doc) i = Some t.
Proof.
  unfold statusMap, newstate_at. intros H.
  destruct (member (states doc) i) as [t|]; [now exists t | discriminate H].
Qed.

(** ** What the scan leaves in its variables *)

Lemma from_states_assign (doc : Doc) (v : Vars) (k : Z) (t : Transition) :
  member (states doc) k = Some t ->
  from_states doc (siteLocation v) ->
  from_states doc (tmpSite (assign v k (location t)))
  /\ from_states doc (siteLocation (assign v k (location t))).
Proof.
  intros Hk Hs. cbn [assign tmpSite siteLocation]. split.
  - intros l [= <-]. now exists k, t.
  - destruct (location t =? "Agent")%string; [exact Hs|].
    intros l [= <-]. now exists k, t.
Qed.

Lemma for_in_from_states (doc : Doc) (ks : list Z) :
  forall v v',
    for_in doc ks v = Ok v' ->
    from_states doc (tmpSite v) -> from_states doc (siteLocation v) ->
    from_states doc (tmpSite v') /\ from_states doc (siteLocation v').
Proof.
  induction ks as [|k ks IH]; intros v v' H Ht Hs; cbn [for_in] in H.
  - injection H as <-. now split.
  - unfold loop_body, location_at in H.
    destruct (member (states doc) k) as [t|] eqn:Hk; [|discriminate H].
    cbn [field rbind] in H.
    destruct (from_states_assign doc v k t Hk Hs) as [Ht' Hs'].
    exact (IH _ _ H Ht' Hs').
Qed.

Lemma for_in_tmpSite (doc : Doc) (ks : list Z) :
  forall v v',
    for_in doc ks v = Ok v' ->
    ks <> [] \/ tmpSite v <> None ->
    tmpSite v' <> None.
Proof.
  induction ks as [|k ks IH]; intros v v' H Hne; cbn [for_in] in H.
  - injection H as <-. now destruct Hne.
  - unfold loop_body in H.
    destruct (location_at doc k) as [l|]; [|discriminate H].
    cbn [rbind] in H. apply (IH _ _ H). right. discriminate.
Qed.

(** When the scan has run over at least one key, [siteLocation] is not
    [null] once defaulted, and it is the location of a property. *)
Lemma resolve_site_located (doc : Doc) (v : Vars) :
  resolve_site doc = Ok v ->
  states doc <> [] ->
  exists site k t,
    siteLocation v = Some site
    /\ member (states doc) k = Some t /\ location t = site.
Proof.
  unfold resolve_site. intros H Hne.
  destruct (for_in doc (keys (states doc)) init_vars) as [v0|] eqn:E;
    [|discriminate H].
  cbn [rbind] in H. injection H as <-.
  assert (Hnull : from_states doc None) by (intros l; discriminate).
  destruct (for_in_from_states _ _ _ _ E Hnull Hnull) as [Ht Hs].
  assert (Htmp : tmpSite v0 <> None).
  { apply (for_in_tmpSite _ _ _ _ E). left. unfold keys.
    destruct (states doc); [contradiction | discriminate]. }
  unfold default_site.
  destruct (siteLocation v0) as [site|] eqn:Es.
  - destruct (Hs site eq_refl) as (k & t & Hk & Hl).
    exists site, k, t. now rewrite Es.
  - destruct (tmpSite v0) as [site|] eqn:Et; [|contradiction].
    destruct (Ht site eq_refl) as (k & t & Hk & Hl).
    now exists site, k, t.
Qed.

(** ** The shape of what is emitted *)

(** X3. Whatever the job document (array or mapping, in any enumeration
    order), when the view function returns it has added exactly one row
    after the rows already there: its key holds the document's
    [workflow], one of the eleven status strings of [statusMap], and a
    site that is not [null] but the [location] of one of the document's
    transitions; its value is 1. *)
Theorem emitted_row_shape (doc : Doc) (out out' : list Row) :
  type doc = "job" ->
  map_fun doc out = (out', Ok tt) ->
  exists status site k t,
    out' = out ++ [((workflow doc, status, Some site), 1)]
    /\ In status statuses
    /\ member (states doc) k = Some t
    /\ location t = site.
Proof.
  intros Hty H. unfold map_fun in H.
  apply String.eqb_eq in Hty. rewrite Hty in H.
  unfold vbind, lift, emit in H.
  destruct (resolve_site doc) as [v|] eqn:Hv; [|discriminate H].
  destruct (statusMap doc (lastStateIndex v)) as [status|] eqn:Hst;
    [|discriminate H].
  injection H as <-.
  destruct (statusMap_ok_member _ _ _ Hst) as [t0 Ht0].
  assert (Hne : states doc <> []).
  { intros E. rewrite E in Ht0. discriminate Ht0. }
  destruct (resolve_site_located doc v Hv Hne) as (site & k & t & Hs & Hk & Hl).
  exists status, site, k, t. rewrite Hs.
  repeat split; [|assumption..]. exact (statusMap_range _ _ _ Hst).
Qed.

Lemma emitted_row_shape_witness :
  exists status site k t,
    [(("wf", "transition", Some "T1_US_FNAL"), 1)]
    = [] ++ [((workflow cooling_doc, status, Some site), 1)]
    /\ In status statuses
    /\ member (states cooling_doc) k = Some t
    /\ location t = site.
Proof.
  exact (emitted_row_shape cooling_doc []
           [(("wf", "transition", Some "T1_US_FNAL"), 1)] eq_refl eq_refl).
Defined.

(** X4. Whatever the document, when the view function ends in an
    exception the output is exactly what it was, the document is a job,
    and the exception is either the string "not valid transition" or
    the engine's [TypeError] of a read through [undefined]; nothing else
    is ever thrown. *)
Theorem exceptions_leave_output (doc : Doc) (out out' : list Row) (e : exn) :
  map_fun doc out = (out', Raise e) ->
  out' = out
  /\ type doc = "job"
  /\ (e = TypeError \/ e = not_valid_transition).
Proof.
  intros H. unfold map_fun in H.
  destruct (String.eqb_spec (type doc) "job") as [Hty|_];
    [|discriminate H].
  unfold vbind, lift, emit in H.
  destruct (resolve_site_total doc) as [v Hv]. rewrite Hv in H.
  destruct (statusMap doc (lastStateIndex v)) as [status|e'] eqn:Hst;
    [discriminate H|].
  injection H as <- <-.
  repeat split; [assumption|]. exact (statusMap_exn _ _ _ Hst).
Qed.

Lemma exceptions_leave_output_witness :
  [] = ([] : list Row)
  /\ type lone_executing_doc = "job"
  /\ (TypeError = TypeError \/ TypeError = not_valid_transition).
Proof.
  exact (exceptions_leave_output lone_executing_doc [] [] TypeError eq_refl).
Defined.

(** ** When a read goes through [undefined] *)




Ltac split_goal_ifs :=
  repeat match goal with
         | |- context [if ?b then _ else _] => destruct b
         end.

(** X5. On a job whose states are an array, the engine's [TypeError]
    cannot happen once the history has two transitions; with a single
    transition, or any longer history, it cannot happen either unless
    the last transition is one that makes [statusMap] look back.  The run
    then either emits its row or throws "not valid transition". *)
Theorem no_type_error (w : string) (pre : list Transition) (out : list Row) :
  (forall p t,
      snd (map_fun (job w (pre ++ [p; t])) out) <> Raise TypeError)
  /\ (forall t,
         looks_back t = false ->
         snd (map_fun (job w (pre ++ [t])) out) <> Raise TypeError).
Proof.
  split.
  - intros p t. rewrite snoc2, map_fun_job. unfold statusMap.
    rewrite newstate_at_last, ?oldstate_at_last, ?oldstate_at_prev.
    cbn [rbind]. split_goal_ifs; discriminate.
  - intros t H. rewrite map_fun_job. unfold statusMap.
    rewrite newstate_at_last, ?oldstate_at_last. cbn [rbind].
    unfold looks_back in H. revert H.
    destruct (oldstate_at _ _) as [o|e]; cbn [rbind];
      split_goal_ifs; cbn [orb andb outcome emitted aborted snd];
      intros H H'; first [discriminate H | discriminate H'].
Qed.

Lemma no_type_error_witness :
  snd (map_fun (job "wf" ([] ++ [mkTransition "created" "bogus" "Agent"])) [])
  <> Raise TypeError.
Proof.
  exact (proj2 (no_type_error "wf" [] [])
               (mkTransition "created" "bogus" "Agent") eq_refl).
Defined.

(** X7. On a job whose single transition is [exhausted -> cleanout],
    [statusMap] reads [doc['states'][-1]], which is [undefined]: the run
    ends with the engine's [TypeError] and emits nothing. *)
Theorem lone_cleanout_type_error (w : string) (t : Transition)
        (out : list Row) :
  newstate t = "cleanout" ->
  oldstate t = "exhausted" ->
  map_fun (job w [t]) out = (out, Raise TypeError).
Proof.
  intros Hns Hos. change [t] with ([] ++ [t]).
  now rewrite (cleanout_exhausted w [] t out Hns Hos).
Qed.

Lemma lone_cleanout_type_error_witness :
  map_fun (job "wf" [mkTransition "exhausted" "cleanout" "Agent"]) []
  = ([], Raise TypeError).
Proof.
  exact (lone_cleanout_type_error
           "wf" (mkTransition "exhausted" "cleanout" "Agent") []
           eq_refl eq_refl).
Defined.

(** ** The bounded lookback *)

(** [statusMap] reads the document at [lastStateIndex] and at
    [lastStateIndex - 1] only. *)
Lemma statusMap_local (doc doc' : Doc) (i i' : Z) :
  member (states doc) i = member (states doc') i' ->
  member (states doc) (i - 1) = member (states doc') (i' - 1) ->
  statusMap doc i = statusMap doc' i'.
Proof.
  intros H0 H1. unfold statusMap, newstate_at, oldstate_at.
  now rewrite H0, H1.
Qed.

(** X8. The status of a history of two or more transitions, or the
    exception thrown for it, is the one [statusMap] gives for its last
    two transitions taken alone: nothing earlier in the history is
    consulted for the status (the site is still resolved over the whole
    history). *)
Theorem status_from_last_two (w : string) (pre : list Transition)
        (p t : Transition) (out : list Row) :
  map_fun (job w (pre ++ [p; t])) out
  = outcome out w (resolved_site (pre ++ [p; t]))
            (statusMap (job w [p; t]) 1).
Proof.
  rewrite snoc2, map_fun_job. f_equal.
  apply statusMap_local; cbn [job states].
  - rewrite member_last. reflexivity.
  - rewrite <- snoc2, member_prev. reflexivity.
Qed.

(** ** Mappings with distinct keys, in any enumeration order *)

Lemma member_nodup (s : States) (k : Z) (t : Transition) :
  NoDup (keys s) -> In (k, t) s -> member s k = Some t.
Proof.
  induction s as [|[k' t'] s IH]; cbn [keys map fst In member]; [easy|].
  intros Hnd [Heq | Hin].
  - injection Heq as -> ->. now rewrite Z.eqb_refl.
  - inversion Hnd as [|? ? Hnotin Hnd']; subst.
    destruct (Z.eqb_spec k k') as [->|_].
    + exfalso. apply Hnotin. change k' with (fst (k', t)).
      now apply in_map.
    + now apply IH.
Qed.

Lemma siteLocation_scan_any (kts : States) :
  siteLocation (scan kts init_vars)
  = match filter not_agent (map location (map snd kts)) with
    | [] => None
    | l => Some (last l "Agent")
    end.
Proof.
  induction kts as [|[k t] kts IH] using rev_ind; [reflexivity|].
  rewrite scan_snoc. cbn [assign siteLocation].
  rewrite !map_app, filter_app. cbn [map filter snd].
  unfold not_agent at 2.
  destruct (location t =? "Agent")%string; cbn [negb].
  - now rewrite app_nil_r.
  - destruct (filter not_agent (map location (map snd kts)) ++ [location t])
      as [|l ls] eqn:E; [now apply app_eq_nil in E|].
    now rewrite <- E, last_last.
Qed.

(** X9. On a job document whose states are any mapping with distinct
    keys, in whatever order the engine enumerates them: the scan ends
    with [lastStateIndex] at the key enumerated last, [statusMap] starts
    from the transition stored there, and the site is the location of
    the last transition, in enumeration order, that is not at "Agent"
    ("Agent" when all are). *)
Theorem object_scan (doc : Doc) (out : list Row)
        (s0 : States) (k : Z) (t : Transition) :
  type doc = "job" ->
  NoDup (keys (states doc)) ->
  states doc = s0 ++ [(k, t)] ->
  (exists v,
      resolve_site doc = Ok v
      /\ lastStateIndex v = k
      /\ siteLocation v = Some (resolved_site (map snd (states doc))))
  /\ newstate_at doc k = Ok (newstate t)
  /\ map_fun doc out
     = outcome out (workflow doc) (resolved_site (map snd (states doc)))
               (statusMap doc k).
Proof.
  intros Hty Hnd Hs.
  assert (Hmem : forall k' t', In (k', t') (states doc) ->
                               member (states doc) k' = Some t')
    by (intros k' t'; now apply member_nodup).
  assert (Hv : resolve_site doc
               = Ok (default_site (scan (states doc) init_vars))).
  { unfold resolve_site. now rewrite (for_in_scan doc (states doc) _ Hmem). }
  assert (Hk : lastStateIndex (default_site (scan (states doc) init_vars)) = k).
  { rewrite lastStateIndex_default_site, Hs, scan_snoc. reflexivity. }
  assert (Hsite : siteLocation (default_site (scan (states doc) init_vars))
                  = Some (resolved_site (map snd (states doc)))).
  { unfold default_site, resolved_site. rewrite siteLocation_scan_any.
    destruct (filter not_agent (map location (map snd (states doc))))
      as [|l ls] eqn:E.
    - cbn [siteLocation last]. rewrite Hs, scan_snoc. cbn [assign tmpSite].
      rewrite Hs, !map_app, filter_app in E. apply app_eq_nil in E as [_ E].
      cbn [map filter snd] in E. unfold not_agent in E.
      destruct (String.eqb_spec (location t) "Agent") as [->|];
        [reflexivity | discriminate E].
    - now rewrite siteLocation_scan_any, E. }
  split; [|split].
  - eexists. split; [exact Hv|]. now split.
  - unfold newstate_at. rewrite (Hmem k t); [reflexivity|].
    rewrite Hs. apply in_or_app. right. now left.
  - unfold map_fun. apply String.eqb_eq in Hty. rewrite Hty.
    unfold vbind, lift. rewrite Hv, Hk.
    destruct (statusMap doc k); [|reflexivity].
    unfold emit, outcome, emitted. now rewrite Hsite.
Qed.

Lemma object_scan_witness :
  (exists v,
      resolve_site cooling_doc = Ok v
      /\ lastStateIndex v = 9
      /\ siteLocation v
         = Some (resolved_site (map snd (states cooling_doc))))
  /\ newstate_at cooling_doc 9 = Ok "jobfailed"
  /\ map_fun cooling_doc []
     = outcome [] "wf" (resolved_site (map snd (states cooling_doc)))
               (statusMap cooling_doc 9).
Proof.
  apply (object_scan cooling_doc []
           (removelast (states cooling_doc)) 9
           (mkTransition "complete" "jobfailed" "T1_US_FNAL")).
  - reflexivity.
  - vm_compute. repeat constructor; cbn [In]; intros H;
      repeat (destruct H as [H | H]; [discriminate H|]); exact H.
  - reflexivity.
Defined.

(** ** Engines that enumerate keys in numeric order *)

Lemma fold_max_sorted (ks : list Z) :
  forall k d, Sorted Z.lt (k :: ks) -> fold_left Z.max ks k = last (k :: ks) d.
Proof.
  induction ks as [|k' ks IH]; intros k d Hs; [reflexivity|].
  inversion Hs as [|? ? Hs' Hhd]; subst.
  inversion Hhd as [|? ? Hlt]; subst.
  cbn [fold_left]. replace (Z.max k k') with k' by lia.
  rewrite (IH k' d Hs'). reflexivity.
Qed.

(** X10. Where the engine enumerates the keys of [doc['states']] in
    increasing numeric order (an array, or a mapping in an engine that
    orders integer keys), the scan ends with [lastStateIndex] at the
    greatest index: [statusMap] then starts from the transition at the
    highest position. *)
Theorem ascending_keys_greatest (doc : Doc) :
  Sorted Z.lt (keys (states doc)) ->
  exists v,
    resolve_site doc = Ok v
    /\ lastStateIndex v = greatest_key (states doc).
Proof.
  intros Hs. destruct (resolve_site_total doc) as [v Hv].
  exists v. split; [assumption|].
  rewrite (resolve_site_lastStateIndex doc v Hv). unfold greatest_key.
  destruct (keys (states doc)) as [|k ks]; [reflexivity|].
  symmetry. now apply fold_max_sorted.
Qed.

Lemma ascending_keys_greatest_witness :
  exists v,
    resolve_site (job "wf" cooling_history) = Ok v
    /\ lastStateIndex v = greatest_key (states (job "wf" cooling_history)).
Proof.
  apply (ascending_keys_greatest (job "wf" cooling_history)).
  vm_compute. repeat constructor.
Defined.

(** ** Runs do not depend on the output so far *)


(** ** When the site is the sentinel *)

Lemma last_in (l : list string) (d : string) : l <> [] -> In (last l d) l.
Proof.
  induction l as [|x l IH]; [easy|]. intros _.
  destruct l as [|y l]; [now left|].
  right. apply IH. discriminate.
Qed.

Lemma filter_not_agent_nil (ts : list Transition) :
  filter not_agent (map location ts) = [] -> Forall at_agent ts.
Proof.
  induction ts as [|t ts IH]; intros H; [constructor|].
  cbn [map filter] in H. unfold not_agent at 1 in H.
  destruct (String.eqb_spec (location t) "Agent") as [E|]; [|discriminate H].
  constructor; [exact E | now apply IH].
Qed.

Lemma resolved_site_agent (ts : list Transition) :
  resolved_site ts = "Agent" <-> Forall at_agent ts.
Proof.
  split; [|apply resolved_site_all_agent].
  unfold resolved_site. intros H.
  destruct (filter not_agent (map location ts)) as [|l ls] eqn:E;
    [now apply filter_not_agent_nil|].
  assert (Hin : In (last (l :: ls) "Agent") (l :: ls))
    by (apply last_in; discriminate).
  rewrite H, <- E in Hin. apply filter_In in Hin as [_ Hin].
  discriminate Hin.
Qed.

(** X12. On a job with a non-empty states array, the site left by the
    scan is the sentinel "Agent" exactly when every transition of the
    history is at "Agent": one transition at a real site is enough for
    the job never to be counted under "Agent". *)
Theorem agent_site_iff (w : string) (pre : list Transition) (t : Transition)
        (v : Vars) :
  resolve_site (job w (pre ++ [t])) = Ok v ->
  siteLocation v = Some "Agent" <-> Forall at_agent (pre ++ [t]).
Proof.
  intros Hv.
  destruct (resolve_site_array w pre t) as (v' & Hv' & Hsite & _).
  rewrite Hv in Hv'. injection Hv' as <-. rewrite Hsite.
  rewrite <- resolved_site_agent. split; [now intros [= ->] | now intros ->].
Qed.

Lemma agent_site_iff_witness :
  siteLocation
    {| tmpSite := Some "Agent"; siteLocation := Some "Agent";
       lastStateIndex := 1 |} = Some "Agent"
  <-> Forall at_agent ([mkTransition "none" "new" "Agent"]
                       ++ [mkTransition "new" "created" "Agent"]).
Proof.
  exact (agent_site_iff "wf" [mkTransition "none" "new" "Agent"]
                        (mkTransition "new" "created" "Agent") _ eq_refl).
Defined.
